(** * RectDomain: axis-aligned rectangular domains (domains.py)

    A shallow embedding of the class [RectDomain] of [domains.py] and the
    properties of its operations.

    Numbers.  The class is duck-typed over the scalars stored in its two
    vectors.  Here a scalar is a Python [int] (unbounded, exact), the kind
    of number the module's own test [testIntersection] builds its vectors
    from; it is modelled as [Z].  The only place where the class leaves
    exact arithmetic on such inputs is [reflectPoint], which stores its
    result in a numpy array of [dtype=np.float32]; that conversion is
    modelled explicitly below. *)

From stdpp Require Import base option list sorting gmap fin_maps.
From Stdlib Require Import ZArith Lia Bool.

Local Open Scope Z_scope.

(** ** Exceptions *)

Inductive exn : Type :=
  | IndexError
  | OverflowError.

Inductive result (A : Type) : Type :=
  | Ok (a : A)
  | Raise (e : exn).

Arguments Ok {A} a.
Arguments Raise {A} e.

Definition rbind {A B : Type} (r : result A) (k : A -> result B) : result B :=
  match r with
  | Ok a => k a
  | Raise e => Raise e
  end.

Notation "'let!' x ':=' r 'in' k" := (rbind r (fun x => k))
  (at level 10, x name, r at level 100, k at level 200).

(** ** Vector2 *)

(** Modelled from the spec: [Vector2] is imported from the module
    [primitives], which is not part of the sources at hand.  The spec gives
    it as a pair of scalars (x, y) with indexed access (index 0 is x, index 1
    is y), componentwise subtraction and exact componentwise equality.  The
    class only ever indexes a vector with the literals 0 and 1, which are
    rendered by the projections [vx] and [vy]. *)
Record Vector2 : Type := mkVector2 { vx : Z; vy : Z }.

(** Modelled from the spec: [Vector2.__sub__], componentwise. *)
Definition Vector2_sub (a b : Vector2) : Vector2 :=
  mkVector2 (vx a - vx b) (vy a - vy b).

(** Modelled from the spec: [Vector2.__eq__], exact and componentwise. *)
Definition Vector2_eq (a b : Vector2) : bool :=
  (vx a =? vx b) && (vy a =? vy b).

(** ** RectDomain, as a value *)

Record RectDomain : Type := mkRectDomain { minCorner : Vector2; size : Vector2 }.

(** [RectDomain.__eq__] *)
Definition RectDomain_eq (self other : RectDomain) : bool :=
  Vector2_eq (minCorner self) (minCorner other) &&
  Vector2_eq (size self) (size other).

(** [RectDomain.intersects] *)
Definition intersects (self domain : RectDomain) : bool :=
  negb ((vx (minCorner self) >? vx (minCorner domain) + vx (size domain)) ||
        (vy (minCorner self) >? vy (minCorner domain) + vy (size domain)) ||
        (vx (minCorner self) + vx (size self) <? vx (minCorner domain)) ||
        (vy (minCorner self) + vy (size self) <? vy (minCorner domain))).

(** [RectDomain.pointInside] *)
Definition pointInside (self : RectDomain) (point : Vector2) : bool :=
  let localX := vx point - vx (minCorner self) in
  let localY := vy point - vy (minCorner self) in
  (localX >=? 0) && (localY >=? 0) &&
  (localX <=? vx (size self)) && (localY <=? vy (size self)).

(** *** [list.sort] on a list of integers *)

Fixpoint sort_insert (a : Z) (l : list Z) : list Z :=
  match l with
  | [] => [a]
  | b :: l' => if a <=? b then a :: l else b :: sort_insert a l'
  end.

Fixpoint list_sort (l : list Z) : list Z :=
  match l with
  | [] => []
  | a :: l' => sort_insert a (list_sort l')
  end.

(** [l[i]] for a list and a non-negative index: [IndexError] out of range. *)
Definition list_index (l : list Z) (i : nat) : result Z :=
  match l !! i with
  | Some a => Ok a
  | None => Raise IndexError
  end.

(** [RectDomain.intersection]; [Ok None] is the Python [None]. *)
Definition intersection (self domain : RectDomain) : result (option RectDomain) :=
  if negb (intersects self domain) then Ok None
  else
    let X := list_sort [ vx (minCorner self); vx (minCorner domain);
                         vx (minCorner self) + vx (size self);
                         vx (minCorner domain) + vx (size domain) ] in
    let Y := list_sort [ vy (minCorner self); vy (minCorner domain);
                         vy (minCorner self) + vy (size self);
                         vy (minCorner domain) + vy (size domain) ] in
    let! x1 := list_index X 1 in
    let! y1 := list_index Y 1 in
    let minC := mkVector2 x1 y1 in
    let! x2 := list_index X 2 in
    let! y2 := list_index Y 2 in
    let maxC := mkVector2 x2 y2 in
    Ok (Some (mkRectDomain minC (Vector2_sub maxC minC))).

(** ** Storing integers in a [float32] array *)

(** The value of a [float32] cell that was filled from an integer: an
    integer-valued finite number or an infinity. *)
Inductive float32 : Type :=
  | F32 (z : Z)
  | F32inf (negative : bool).

(** Rounding of an integer to [prec] significant bits, nearest, ties to even. *)
Definition round_half_even (prec z : Z) : Z :=
  let a := Z.abs z in
  let e := Z.max 0 (Z.log2 a + 1 - prec) in
  let q := a / 2 ^ e in
  let r := a mod 2 ^ e in
  let q' := if (2 ^ e <? 2 * r) || ((2 * r =? 2 ^ e) && Z.odd q)
            then q + 1 else q in
  Z.sgn z * (q' * 2 ^ e).

(** [float(z)] for a Python int: the nearest double, [OverflowError] when
    that is out of the range of a double. *)
Definition int_to_double (z : Z) : result Z :=
  let d := round_half_even 53 z in
  if 2 ^ 1024 <=? Z.abs d then Raise OverflowError else Ok d.

(** The C cast of an (integer-valued) double to [float]. *)
Definition double_to_float32 (d : Z) : float32 :=
  let f := round_half_even 24 d in
  if 2 ^ 128 <=? Z.abs f then F32inf (f <? 0) else F32 f.

(** One cell of the array: numpy converts the Python number to a C double
    and casts it to the array's type. *)
Definition float32_setitem (z : Z) : result float32 :=
  let! d := int_to_double z in
  Ok (double_to_float32 d).

(** [reflection[ i, : ] = ( a, b )] *)
Definition store_row (a b : Z) : result (float32 * float32) :=
  let! x := float32_setitem a in
  let! y := float32_setitem b in
  Ok (x, y).

(** [RectDomain.reflectPoint]: the 4 x 2 array, as its list of rows. *)
Definition reflectPoint (self : RectDomain) (point : Vector2)
  : result (list (float32 * float32)) :=
  let l := vx (minCorner self) in
  let b := vy (minCorner self) in
  let r := l + vx (size self) in
  let t := b + vy (size self) in
  let! left := store_row (2 * l - vx point) (vy point) in
  let! right := store_row (2 * r - vx point) (vy point) in
  let! bottom := store_row (vx point) (2 * b - vy point) in
  let! top := store_row (vx point) (2 * t - vy point) in
  Ok [left; right; bottom; top].

(** ** RectDomain, as an object *)

(** [copyDomain] assigns to the attributes of [self], and its point is what
    [self] and [domain] share afterwards.  For it the vectors and the
    domains live in a store: a domain object holds two references to vector
    objects.  A lookup that finds nothing is a dangling reference, which a
    Python program cannot build; the operations below give [None] there. *)

Abbreviation loc := positive (only parsing).

Record RectObject : Type := mkRectObject { minCorner_ref : loc; size_ref : loc }.

Record heap : Type := mkHeap {
  vectors : gmap positive Vector2;
  domains : gmap positive RectObject
}.

(** [copy.deepcopy( v )] for a vector: a new object with the same two
    (immutable) numbers. *)
Definition deepcopy (v : loc) (h : heap) : option (loc * heap) :=
  val ← vectors h !! v;
  let l := fresh (dom (vectors h)) in
  Some (l, mkHeap (<[l := val]> (vectors h)) (domains h)).

(** [self.minCorner = m] *)
Definition set_minCorner (self m : loc) (h : heap) : option heap :=
  o ← domains h !! self;
  Some (mkHeap (vectors h) (<[self := mkRectObject m (size_ref o)]> (domains h))).

(** [self.size = s] *)
Definition set_size (self s : loc) (h : heap) : option heap :=
  o ← domains h !! self;
  Some (mkHeap (vectors h) (<[self := mkRectObject (minCorner_ref o) s]> (domains h))).

(** [RectDomain.copyDomain] *)
Definition copyDomain (self domain : loc) (h : heap) : option heap :=
  d ← domains h !! domain;
  '(m, h1) ← deepcopy (minCorner_ref d) h;
  h2 ← set_minCorner self m h1;
  d' ← domains h2 !! domain;
  '(s, h3) ← deepcopy (size_ref d') h2;
  set_size self s h3.

(** Any later mutation of the vector object at [l] (an assignment to one of
    its attributes, or to both): the object now holds [v]. *)
Definition vector_write (l : loc) (v : Vector2) (h : heap) : heap :=
  mkHeap (<[l := v]> (vectors h)) (domains h).

(** The value of the domain object at [r]. *)
Definition load (h : heap) (r : loc) : option RectDomain :=
  o ← domains h !! r;
  m ← vectors h !! minCorner_ref o;
  s ← vectors h !! size_ref o;
  Some (mkRectDomain m s).

(** *** Building objects: the constructors and [intersection] *)

(** [RectDomain.__init__]: the new object keeps the two references it is
    given. *)
Definition RectDomain_init (m s : loc) (h : heap) : loc * heap :=
  let self := fresh (dom (domains h)) in
  (self, mkHeap (vectors h) (<[self := mkRectObject m s]> (domains h))).

(** Modelled from the spec: the constructor [Vector2( x, y )] of the module
    [primitives] (not part of the sources at hand) makes a new vector
    object. *)
Definition Vector2_init (x y : Z) (h : heap) : loc * heap :=
  let l := fresh (dom (vectors h)) in
  (l, mkHeap (<[l := mkVector2 x y]> (vectors h)) (domains h)).

(** Modelled from the spec: [a - b] for two vector objects, a new vector
    object holding the componentwise difference. *)
Definition Vector2_sub_obj (a b : loc) (h : heap) : option (loc * heap) :=
  va ← vectors h !! a;
  vb ← vectors h !! b;
  Some (Vector2_init (vx va - vx vb) (vy va - vy vb) h).

(** [RectDomain.intersection] on the store: what it reads, what it
    allocates and what it returns, a reference to a new domain or [None]. *)
Definition intersection_obj (self domain : loc) (h : heap)
  : option (result (option loc) * heap) :=
  A ← load h self;
  B ← load h domain;
  if negb (intersects A B) then Some (Ok None, h)
  else
    let X := list_sort [ vx (minCorner A); vx (minCorner B);
                         vx (minCorner A) + vx (size A);
                         vx (minCorner B) + vx (size B) ] in
    let Y := list_sort [ vy (minCorner A); vy (minCorner B);
                         vy (minCorner A) + vy (size A);
                         vy (minCorner B) + vy (size B) ] in
    match list_index X 1, list_index Y 1 with
    | Raise e, _ | Ok _, Raise e => Some (Raise e, h)
    | Ok x1, Ok y1 =>
        let '(minC, h1) := Vector2_init x1 y1 h in
        match list_index X 2, list_index Y 2 with
        | Raise e, _ | Ok _, Raise e => Some (Raise e, h1)
        | Ok x2, Ok y2 =>
            let '(maxC, h2) := Vector2_init x2 y2 h1 in
            '(sz, h3) ← Vector2_sub_obj maxC minC h2;
            let '(r, h4) := RectDomain_init minC sz h3 in
            Some (Ok (Some r), h4)
        end
    end.

(** ** Notions the properties are stated with *)

(** The four numbers a rectangle is read through. *)
Definition minX (d : RectDomain) : Z := vx (minCorner d).
Definition minY (d : RectDomain) : Z := vy (minCorner d).
Definition maxX (d : RectDomain) : Z := vx (minCorner d) + vx (size d).
Definition maxY (d : RectDomain) : Z := vy (minCorner d) + vy (size d).

Definition nonneg_size (d : RectDomain) : Prop :=
  0 <= vx (size d) /\ 0 <= vy (size d).

(** Two rectangles touch: they meet, and along one axis the maximum of one
    is the minimum of the other. *)
Definition touching (A B : RectDomain) : bool :=
  intersects A B &&
  ((maxX A =? minX B) || (maxX B =? minX A) ||
   (maxY A =? minY B) || (maxY B =? minY A)).


(** The four reflections of [P] over the boundary lines of [D], as exact
    points: left, right, bottom, top. *)
Definition reflections (D : RectDomain) (P : Vector2) : list Vector2 :=
  [ mkVector2 (2 * vx (minCorner D) - vx P) (vy P);
    mkVector2 (2 * (vx (minCorner D) + vx (size D)) - vx P) (vy P);
    mkVector2 (vx P) (2 * vy (minCorner D) - vy P);
    mkVector2 (vx P) (2 * (vy (minCorner D) + vy (size D)) - vy P) ].

(** The row of a [float32] array that holds exactly the point [v]. *)
Definition row_of (v : Vector2) : float32 * float32 := (F32 (vx v), F32 (vy v)).





(** * Properties *)

(** ** The operations on concrete inputs *)

Example intersection_ex :
  intersection (mkRectDomain (mkVector2 0 0) (mkVector2 5 5))
               (mkRectDomain (mkVector2 (-1) 1) (mkVector2 2 2))
  = Ok (Some (mkRectDomain (mkVector2 0 1) (mkVector2 1 2))).
Proof. reflexivity. Qed.

Example copy_ex :
  let h := mkHeap {[ 1%positive := mkVector2 0 0; 2%positive := mkVector2 5 5;
                     3%positive := mkVector2 1 1; 4%positive := mkVector2 3 3 ]}
                  {[ 1%positive := mkRectObject 1%positive 2%positive;
                     2%positive := mkRectObject 3%positive 4%positive ]} in
  (h' ← copyDomain 1%positive 2%positive h; load h' 1%positive)
  = Some (mkRectDomain (mkVector2 1 1) (mkVector2 3 3)).
Proof. vm_compute. reflexivity. Qed.

Example reflect_ex :
  reflectPoint (mkRectDomain (mkVector2 0 0) (mkVector2 5 5)) (mkVector2 1 2)
  = Ok [(F32 (-1), F32 2); (F32 9, F32 2); (F32 1, F32 (-2)); (F32 1, F32 8)].
Proof. vm_compute. reflexivity. Qed.

Example f32_round_ex :
  float32_setitem 16777217 = Ok (F32 16777216) /\
  float32_setitem 16777219 = Ok (F32 16777220) /\
  float32_setitem (-(2^60 + 2^36 + 1)) = Ok (F32 (-(2^60))) /\
  float32_setitem (2^128 - 2^103) = Ok (F32inf false) /\
  float32_setitem (2^128 - 2^103 - 2^75) = Ok (F32 (2^128 - 2^104)) /\
  float32_setitem (2^1024 - 2^970) = Raise OverflowError /\
  float32_setitem (2^1024 - 2^970 - 1) = Ok (F32inf false).
Proof. vm_compute. repeat split; reflexivity. Qed.

(** ** Booleans and comparisons *)


Lemma intersects_true (A B : RectDomain) :
  intersects A B = true <->
  minX A <= maxX B /\ minY A <= maxY B /\ minX B <= maxX A /\ minY B <= maxY A.
Proof.
  unfold intersects, minX, minY, maxX, maxY.
  rewrite negb_true_iff, !orb_false_iff, !Z.gtb_ltb, !Z.ltb_ge. lia.
Qed.

Lemma intersects_swap (A B : RectDomain) : intersects A B = intersects B A.
Proof.
  apply eq_true_iff_eq. rewrite !intersects_true. lia.
Qed.


Lemma pointInside_true (D : RectDomain) (P : Vector2) :
  pointInside D P = true <->
  minX D <= vx P <= maxX D /\ minY D <= vy P <= maxY D.
Proof.
  unfold pointInside, minX, minY, maxX, maxY; cbv zeta.
  rewrite !andb_true_iff, !Z.geb_leb, !Z.leb_le. lia.
Qed.


(** ** Sorting *)

Lemma sort_insert_Permutation (a : Z) (l : list Z) : sort_insert a l ≡ₚ a :: l.
Proof.
  induction l as [|b l IH]; simpl; [done|].
  destruct (a <=? b); [done|].
  rewrite IH. apply Permutation_swap.
Qed.

Lemma list_sort_Permutation (l : list Z) : list_sort l ≡ₚ l.
Proof.
  induction l as [|a l IH]; simpl; [done|].
  by rewrite sort_insert_Permutation, IH.
Qed.

Lemma list_sort_length (l : list Z) : length (list_sort l) = length l.
Proof. apply Permutation_length, list_sort_Permutation. Qed.

Lemma sort_insert_Sorted (a : Z) (l : list Z) :
  Sorted Z.le l -> Sorted Z.le (sort_insert a l).
Proof.
  induction 1 as [|b l Hs IH Hb]; simpl.
  - repeat constructor.
  - destruct (Z.leb_spec a b).
    + repeat constructor; done.
    + constructor; [done|].
      destruct Hb as [|c l Hbc]; simpl.
      * constructor. lia.
      * destruct (a <=? c); constructor; lia.
Qed.

Lemma list_sort_Sorted (l : list Z) : Sorted Z.le (list_sort l).
Proof.
  induction l as [|a l IH]; simpl; [constructor|].
  by apply sort_insert_Sorted.
Qed.

(** The sorted list depends on the numbers only, not on their order. *)
Lemma list_sort_order_irrelevant (l k : list Z) :
  l ≡ₚ k -> list_sort l = list_sort k.
Proof.
  intros Hp. apply (Sorted_unique Z.le); auto using list_sort_Sorted.
  by rewrite !list_sort_Permutation.
Qed.


(** Indexing the sorted list of four numbers at 1 and 2 never fails. *)
Lemma sorted_index (l : list Z) (i : nat) :
  (i < length l)%nat -> exists x, list_index (list_sort l) i = Ok x.
Proof.
  intros Hi. unfold list_index.
  destruct (lookup_lt_is_Some_2 (list_sort l) i) as [x ->]; [|by exists x].
  by rewrite list_sort_length.
Qed.

(** ** intersection *)


Lemma intersection_apart (A B : RectDomain) :
  intersects A B = false -> intersection A B = Ok None.
Proof. intros Hi. unfold intersection. by rewrite Hi. Qed.

(** With or without a sign condition, [intersection] returns: no index is
    out of range, and the result is a rectangle whenever the domains meet. *)
Lemma intersection_returns (A B : RectDomain) :
  intersects A B = true -> exists R, intersection A B = Ok (Some R).
Proof.
  intros Hi. unfold intersection. rewrite Hi. simpl negb. cbv iota zeta.
  repeat match goal with
  | |- context [ list_index (list_sort ?l) ?i ] =>
      let x := fresh "x" in let Hx := fresh "Hx" in
      destruct (sorted_index l i) as [x Hx]; [simpl; lia|]; rewrite Hx; clear Hx
  end.
  simpl. eauto.
Qed.



(** ** intersects and pointInside *)





Example touching_ex :
  touching (mkRectDomain (mkVector2 0 0) (mkVector2 5 5))
           (mkRectDomain (mkVector2 5 1) (mkVector2 2 2)) = true /\
  intersection (mkRectDomain (mkVector2 0 0) (mkVector2 5 5))
               (mkRectDomain (mkVector2 5 1) (mkVector2 2 2))
  = Ok (Some (mkRectDomain (mkVector2 5 1) (mkVector2 0 2))).
Proof. split; reflexivity. Qed.

(** C5. [A.intersects(B) == B.intersects(A)], whatever the signs of the
    sizes. *)
Theorem intersects_sym (A B : RectDomain) : intersects A B = intersects B A.
Proof. apply intersects_swap. Qed.

(** C6. [D.pointInside(P)] is true exactly when P is in the closed rectangle:
    with localX = P.x - minCorner.x and localY = P.y - minCorner.y, exactly
    when 0 <= localX <= size.x and 0 <= localY <= size.y. *)
Theorem pointInside_closed (D : RectDomain) (P : Vector2) :
  let localX := vx P - vx (minCorner D) in
  let localY := vy P - vy (minCorner D) in
  pointInside D P = true <->
  (0 <= localX <= vx (size D)) /\ (0 <= localY <= vy (size D)).
Proof.
  intros localX localY. unfold pointInside. fold localX localY.
  rewrite !andb_true_iff, !Z.geb_leb, !Z.leb_le. lia.
Qed.

(** C9. The cases of [testIntersection]: D = min(0,0) size(5,5) against
    min(6,6) size(1,1), min(1,1) size(3,3), min(-1,-1) size(2,2) and
    min(-1,1) size(2,2). *)
Theorem intersection_test_cases :
  let D := mkRectDomain (mkVector2 0 0) (mkVector2 5 5) in
  intersection D (mkRectDomain (mkVector2 6 6) (mkVector2 1 1)) = Ok None /\
  intersection D (mkRectDomain (mkVector2 1 1) (mkVector2 3 3))
    = Ok (Some (mkRectDomain (mkVector2 1 1) (mkVector2 3 3))) /\
  intersection D (mkRectDomain (mkVector2 (-1) (-1)) (mkVector2 2 2))
    = Ok (Some (mkRectDomain (mkVector2 0 0) (mkVector2 1 1))) /\
  intersection D (mkRectDomain (mkVector2 (-1) 1) (mkVector2 2 2))
    = Ok (Some (mkRectDomain (mkVector2 0 1) (mkVector2 1 2))).
Proof. repeat split. Qed.

(** C10. [A.intersection(B)] and [B.intersection(A)] agree: the same result,
    so both [None] or both rectangles that [__eq__] takes for equal. *)
Theorem intersection_sym (A B : RectDomain) :
  intersection A B = intersection B A /\
  match intersection A B, intersection B A with
  | Ok None, Ok None => True
  | Ok (Some R), Ok (Some R') => RectDomain_eq R R' = true
  | _, _ => False
  end.
Proof.
  assert (Heq : intersection A B = intersection B A).
  { unfold intersection. rewrite (intersects_swap B A).
    destruct (negb (intersects A B)); [done|]. cbv zeta.
    rewrite (list_sort_order_irrelevant
               [vx (minCorner B); vx (minCorner A);
                vx (minCorner B) + vx (size B); vx (minCorner A) + vx (size A)]
               [vx (minCorner A); vx (minCorner B);
                vx (minCorner A) + vx (size A); vx (minCorner B) + vx (size B)]).
    2: { rewrite (Permutation_swap (vx (minCorner B))). do 2 f_equiv. apply Permutation_swap. }
    rewrite (list_sort_order_irrelevant
               [vy (minCorner B); vy (minCorner A);
                vy (minCorner B) + vy (size B); vy (minCorner A) + vy (size A)]
               [vy (minCorner A); vy (minCorner B);
                vy (minCorner A) + vy (size A); vy (minCorner B) + vy (size B)]).
    2: { rewrite (Permutation_swap (vy (minCorner B))). do 2 f_equiv. apply Permutation_swap. }
    done. }
  split; [done|]. rewrite <- Heq.
  destruct (intersects A B) eqn:Hi.
  - destruct (intersection_returns A B Hi) as [R ->].
    unfold RectDomain_eq, Vector2_eq. by rewrite !Z.eqb_refl.
  - by rewrite intersection_apart.
Qed.

(** ** reflectPoint *)











(** Beyond 2^24 the rounding can put the reflection of a point that is off
    the edge back on the edge: here the left reflection 2^24+3 of a point one
    unit right of the left edge 2^24+4 is stored as 2^24+4. *)
Example reflection_rounded_onto_edge :
  let D := mkRectDomain (mkVector2 16777220 0) (mkVector2 10 10) in
  let P := mkVector2 16777221 5 in
  pointInside D P = true /\ vx P <> minX D /\
  exists rows,
    reflectPoint D P = Ok rows /\
    rows !! 0%nat = Some (row_of (mkVector2 16777220 5)) /\
    pointInside D (mkVector2 16777220 5) = true.
Proof.
  intros D P. split; [reflexivity|]. split; [unfold minX; simpl; lia|].
  eexists. split; [vm_compute; reflexivity|]. split; reflexivity.
Qed.

(** An integer beyond the range of a double is not converted at all. *)
Example reflectPoint_overflow :
  reflectPoint (mkRectDomain (mkVector2 0 0) (mkVector2 5 5)) (mkVector2 (2 ^ 1024) 0)
  = Raise OverflowError.
Proof. vm_compute. reflexivity. Qed.

(** ** copyDomain *)

(** The store after [a.copyDomain(b)]: two new vector objects, which [a]
    now refers to. *)
Lemma copyDomain_run (a b : loc) (h : heap) (oa ob : RectObject) (m s : Vector2) :
  domains h !! a = Some oa -> domains h !! b = Some ob ->
  vectors h !! minCorner_ref ob = Some m -> vectors h !! size_ref ob = Some s ->
  let l1 := fresh (dom (vectors h)) in
  let l2 := fresh (dom (<[l1 := m]> (vectors h))) in
  copyDomain a b h =
  Some (mkHeap (<[l2 := s]> (<[l1 := m]> (vectors h)))
               (<[a := mkRectObject l1 l2]> (domains h))).
Proof.
  intros Ha Hb Hm Hs l1 l2.
  assert (Hl1 : size_ref ob <> l1).
  { intros E. pose proof (is_fresh (dom (vectors h))) as Hf.
    apply Hf, elem_of_dom. fold l1. rewrite <- E. eauto. }
  unfold copyDomain, deepcopy, set_minCorner, set_size.
  rewrite Hb. cbn. rewrite Hm. cbn. rewrite Ha. cbn. fold l1.
  assert (Hd : exists d', <[a := mkRectObject l1 (size_ref oa)]> (domains h) !! b = Some d'
                          /\ size_ref d' = size_ref ob).
  { destruct (decide (a = b)) as [->|Hne].
    - rewrite lookup_insert_eq. eexists; split; [done|]. simpl. congruence.
    - rewrite lookup_insert_ne by done. eauto. }
  destruct Hd as (d' & -> & Hd'). cbn. rewrite Hd'.
  rewrite lookup_insert_ne by done. rewrite Hs. cbn.
  rewrite lookup_insert_eq. cbn. fold l2.
  by rewrite insert_insert_eq.
Qed.

Lemma RectDomain_eq_refl (A : RectDomain) : RectDomain_eq A A = true.
Proof. unfold RectDomain_eq, Vector2_eq. by rewrite !Z.eqb_refl. Qed.

(** C8. After [A.copyDomain(B)]: A equals B under [__eq__]; B has the value
    it had, its vector objects are untouched and (B not being A itself) it
    still refers to them; A refers to two new vector objects, so that
    whatever is later written into a vector of B leaves the value of A as it
    is. *)
Theorem copyDomain_deep (h : heap) (a b : loc) (oa ob : RectObject) (B : RectDomain) :
  domains h !! a = Some oa -> domains h !! b = Some ob -> load h b = Some B ->
  exists (h' : heap) (oa' : RectObject) (A' B' : RectDomain),
    copyDomain a b h = Some h' /\
    load h' a = Some A' /\ load h' b = Some B' /\
    RectDomain_eq A' B' = true /\
    B' = B /\
    (a <> b -> domains h' !! b = Some ob) /\
    (forall l : loc, is_Some (vectors h !! l) -> vectors h' !! l = vectors h !! l) /\
    domains h' !! a = Some oa' /\
    minCorner_ref oa' <> minCorner_ref ob /\ minCorner_ref oa' <> size_ref ob /\
    size_ref oa' <> minCorner_ref ob /\ size_ref oa' <> size_ref ob /\
    (forall (l : loc) (v : Vector2),
       l = minCorner_ref ob \/ l = size_ref ob ->
       load (vector_write l v h') a = Some A').
Proof.
  intros Ha Hb HB. unfold load in HB. rewrite Hb in HB. cbn in HB.
  destruct (vectors h !! minCorner_ref ob) as [m|] eqn:Hm; [|done]. cbn in HB.
  destruct (vectors h !! size_ref ob) as [s|] eqn:Hs; [|done]. cbn in HB.
  injection HB as <-.
  pose proof (copyDomain_run a b h oa ob m s Ha Hb Hm Hs) as Hrun. cbv zeta in Hrun.
  set (l1 := fresh (dom (vectors h))) in *.
  set (l2 := fresh (dom (<[l1 := m]> (vectors h)))) in *.
  assert (Hf1 : vectors h !! l1 = None) by apply not_elem_of_dom, is_fresh.
  assert (Hf2 : <[l1 := m]> (vectors h) !! l2 = None) by apply not_elem_of_dom, is_fresh.
  assert (Hl12 : l1 <> l2).
  { intros E. rewrite <- E, lookup_insert_eq in Hf2. done. }
  assert (Hold : forall l, is_Some (vectors h !! l) -> l <> l1 /\ l <> l2).
  { intros l [x Hx]. split; intros ->; [congruence|].
    destruct (decide (l1 = l2)) as [E|NE]; [done|].
    rewrite lookup_insert_ne in Hf2 by done. congruence. }
  destruct (Hold (minCorner_ref ob)) as [Hm1 Hm2]; [eauto|].
  destruct (Hold (size_ref ob)) as [Hs1 Hs2]; [eauto|].
  assert (Hkeep : forall l, is_Some (vectors h !! l) ->
                  <[l2 := s]> (<[l1 := m]> (vectors h)) !! l = vectors h !! l).
  { intros l Hl. destruct (Hold l Hl). by rewrite !lookup_insert_ne. }
  eexists _, (mkRectObject l1 l2), (mkRectDomain m s), (mkRectDomain m s).
  split; [exact Hrun|].
  assert (HA : forall V : gmap positive Vector2,
             V !! l1 = Some m -> V !! l2 = Some s ->
             load (mkHeap V (<[a := mkRectObject l1 l2]> (domains h))) a
             = Some (mkRectDomain m s)).
  { intros V H1 H2. unfold load. cbn. rewrite lookup_insert_eq. cbn.
    rewrite H1. cbn. rewrite H2. done. }
  repeat split; try done.
  - apply HA; [by rewrite lookup_insert_ne, lookup_insert_eq|by rewrite lookup_insert_eq].
  - destruct (decide (a = b)) as [<-|Hne].
    + apply HA; [by rewrite lookup_insert_ne, lookup_insert_eq|by rewrite lookup_insert_eq].
    + unfold load. cbn. rewrite lookup_insert_ne by done. rewrite Hb. cbn.
      rewrite !Hkeep by eauto. rewrite Hm. cbn. by rewrite Hs.
  - apply RectDomain_eq_refl.
  - intros Hne. cbn. by rewrite lookup_insert_ne.
  - cbn. apply lookup_insert_eq.
  - intros l v Hl. unfold vector_write. cbn. apply HA.
    + rewrite lookup_insert_ne by (destruct Hl; congruence).
      by rewrite lookup_insert_ne, lookup_insert_eq.
    + rewrite lookup_insert_ne by (destruct Hl; congruence).
      by rewrite lookup_insert_eq.
Qed.

Lemma copyDomain_deep_witness :
  let h := mkHeap {[ 1%positive := mkVector2 0 0; 2%positive := mkVector2 5 5;
                     3%positive := mkVector2 1 1; 4%positive := mkVector2 3 3 ]}
                  {[ 1%positive := mkRectObject 1%positive 2%positive;
                     2%positive := mkRectObject 3%positive 4%positive ]} in
  let a := 1%positive in
  let b := 2%positive in
  let ob := mkRectObject 3%positive 4%positive in
  let B := mkRectDomain (mkVector2 1 1) (mkVector2 3 3) in
  exists (h' : heap) (oa' : RectObject) (A' B' : RectDomain),
    copyDomain a b h = Some h' /\
    load h' a = Some A' /\ load h' b = Some B' /\
    RectDomain_eq A' B' = true /\
    B' = B /\
    (a <> b -> domains h' !! b = Some ob) /\
    (forall l : loc, is_Some (vectors h !! l) -> vectors h' !! l = vectors h !! l) /\
    domains h' !! a = Some oa' /\
    minCorner_ref oa' <> minCorner_ref ob /\ minCorner_ref oa' <> size_ref ob /\
    size_ref oa' <> minCorner_ref ob /\ size_ref oa' <> size_ref ob /\
    (forall (l : loc) (v : Vector2),
       l = minCorner_ref ob \/ l = size_ref ob ->
       load (vector_write l v h') a = Some A').
Proof.
  intros h a b ob B.
  apply (copyDomain_deep h a b (mkRectObject 1%positive 2%positive) ob B).
  - vm_compute. reflexivity.
  - vm_compute. reflexivity.
  - vm_compute. reflexivity.
Defined.

(** * Further properties *)

(** ** intersection as an operation on regions *)




Lemma sorted_middle (l : list Z) (x y : Z) :
  Sorted Z.le l -> l !! 1%nat = Some x -> l !! 2%nat = Some y -> x <= y.
Proof.
  intros Hs Hx Hy.
  destruct l as [|x0 [|x1 [|x2 l]]]; simplify_eq/=.
  apply Sorted_inv in Hs as [Hs _]. apply Sorted_inv in Hs as [_ Hs].
  by apply HdRel_inv in Hs.
Qed.

(** X2. Whatever the signs of the sizes of A and B, a rectangle returned by
    [A.intersection(B)] has a non-negative width and height. *)
Theorem intersection_size_nonneg (A B R : RectDomain) :
  intersection A B = Ok (Some R) -> nonneg_size R.
Proof.
  unfold intersection. destruct (negb (intersects A B)); [done|]. cbv zeta.
  set (X := list_sort _). set (Y := list_sort _).
  pose proof (list_sort_Sorted [vx (minCorner A); vx (minCorner B);
    vx (minCorner A) + vx (size A); vx (minCorner B) + vx (size B)]) as HX.
  pose proof (list_sort_Sorted [vy (minCorner A); vy (minCorner B);
    vy (minCorner A) + vy (size A); vy (minCorner B) + vy (size B)]) as HY.
  fold X in HX. fold Y in HY. clearbody X Y. unfold list_index.
  destruct (X !! 1%nat) as [x1|] eqn:Hx1; cbn; [|done].
  destruct (Y !! 1%nat) as [y1|] eqn:Hy1; cbn; [|done].
  destruct (X !! 2%nat) as [x2|] eqn:Hx2; cbn; [|done].
  destruct (Y !! 2%nat) as [y2|] eqn:Hy2; cbn; [|done].
  intros [= <-]. unfold nonneg_size; simpl.
  pose proof (sorted_middle X x1 x2 HX Hx1 Hx2).
  pose proof (sorted_middle Y y1 y2 HY Hy1 Hy2). lia.
Qed.

Lemma intersection_size_nonneg_witness :
  nonneg_size (mkRectDomain (mkVector2 (-5) (-5)) (mkVector2 5 5)).
Proof.
  apply (intersection_size_nonneg
           (mkRectDomain (mkVector2 0 0) (mkVector2 (-5) (-5)))
           (mkRectDomain (mkVector2 (-10) (-10)) (mkVector2 20 20))).
  reflexivity.
Defined.






(** ** The region of a domain *)

(** X6. A domain contains a point exactly when its width and height are
    non-negative; with a negative size [pointInside] is false everywhere. *)
Theorem pointInside_somewhere (D : RectDomain) :
  (exists P : Vector2, pointInside D P = true) <-> nonneg_size D.
Proof.
  split.
  - intros [P HP]. apply pointInside_true in HP.
    unfold nonneg_size, minX, minY, maxX, maxY in *. lia.
  - intros [Hx Hy]. exists (minCorner D). apply pointInside_true.
    unfold minX, minY, maxX, maxY. lia.
Qed.




(** ** The numbers that reflectPoint stores *)

(** Rounding to [prec] bits moves a number by at most a fraction 2^-prec of
    its magnitude. *)
Lemma round_half_even_error (prec z : Z) :
  0 < prec ->
  Z.abs (round_half_even prec z - z) * 2 ^ prec <= Z.abs z.
Proof.
  intros Hp. unfold round_half_even.
  set (a := Z.abs z).
  destruct (Z.le_gt_cases (Z.log2 a + 1 - prec) 0) as [He|He].
  - rewrite Z.max_l by done. cbv zeta.
    rewrite Z.pow_0_r, Z.div_1_r, Z.mod_1_r. simpl. rewrite Z.mul_1_r.
    replace (Z.sgn z * a - z) with 0 by (unfold a; destruct z; simpl; lia).
    simpl. lia.
  - rewrite Z.max_r by lia. cbv zeta.
    assert (Ha : 0 < a).
    { assert (0 <= a) by (unfold a; lia).
      destruct (Z.eq_dec a 0) as [E|]; [|lia].
      rewrite E in He. simpl in He. lia. }
    set (e := Z.log2 a + 1 - prec) in *.
    assert (HP : 0 < 2 ^ e) by (apply Z.pow_pos_nonneg; lia).
    set (P := 2 ^ e) in *.
    pose proof (Z.div_mod a P ltac:(lia)) as Hdm.
    pose proof (Z.mod_pos_bound a P HP) as Hr.
    set (q := a / P) in *. set (r := a mod P) in *.
    assert (HM : 0 < 2 ^ (prec - 1)) by (apply Z.pow_pos_nonneg; lia).
    assert (Hprec : 2 ^ prec = 2 * 2 ^ (prec - 1)).
    { replace prec with (1 + (prec - 1)) at 1 by lia.
      rewrite Z.pow_add_r by lia. reflexivity. }
    assert (Hlog : P * 2 ^ (prec - 1) <= a).
    { unfold P. rewrite <- Z.pow_add_r by lia.
      replace (e + (prec - 1)) with (Z.log2 a) by (unfold e; lia).
      apply Z.log2_spec. lia. }
    set (M := 2 ^ (prec - 1)) in *. rewrite Hprec.
    assert (Hz : z = Z.sgn z * a /\ (Z.sgn z = 1 \/ Z.sgn z = -1)).
    { unfold a. destruct z; simpl in *; lia. }
    destruct Hz as [Hz Hs].
    assert (Hgoal : forall q' : Z,
              2 * Z.abs (q' * P - a) <= P ->
              Z.abs (Z.sgn z * (q' * P) - z) * (2 * M) <= a).
    { intros q' Hq.
      assert (E : Z.abs (Z.sgn z * (q' * P) - z) = Z.abs (q' * P - a)).
      { rewrite Hz at 2. destruct Hs as [-> | ->]; lia. }
      rewrite E.
      assert (2 * Z.abs (q' * P - a) * M <= P * M)
        by (apply Z.mul_le_mono_nonneg_r; lia).
      lia. }
    apply Hgoal.
    destruct ((P <? 2 * r) || ((2 * r =? P) && Z.odd q)) eqn:Hc.
    + assert (P <= 2 * r).
      { apply orb_true_iff in Hc as [Hc|Hc].
        - apply Z.ltb_lt in Hc. lia.
        - apply andb_true_iff in Hc as [Hc _]. apply Z.eqb_eq in Hc. lia. }
      lia.
    + apply orb_false_iff in Hc as [Hc _]. apply Z.ltb_ge in Hc. lia.
Qed.



Lemma float32_setitem_in_range (z : Z) :
  Z.abs z < 2 ^ 1023 -> exists f, float32_setitem z = Ok f.
Proof.
  intros Hz. unfold float32_setitem, int_to_double.
  pose proof (round_half_even_error 53 z ltac:(lia)) as Hd.
  set (d := round_half_even 53 z) in *.
  destruct (Z.leb_spec (2 ^ 1024) (Z.abs d)) as [Hx|Hx]; simpl; [lia|eauto].
Qed.





(** X12. [reflectPoint] checks nothing about the point: whenever the
    coordinates of the four reflections are below 2^1023 in magnitude, it
    returns, and what it returns has exactly four rows. *)
Theorem reflectPoint_returns (D : RectDomain) (P : Vector2) :
  Forall (fun v => Z.abs (vx v) < 2 ^ 1023 /\ Z.abs (vy v) < 2 ^ 1023)
         (reflections D P) ->
  exists rows, reflectPoint D P = Ok rows /\ length rows = 4%nat.
Proof.
  unfold reflections. rewrite !Forall_cons. simpl.
  intros ([Hx0 Hy0] & [Hx1 _] & [Hx2 Hy2] & [_ Hy3] & _).
  unfold reflectPoint, store_row. cbv zeta.
  destruct (float32_setitem_in_range _ Hx0) as [? ->].
  destruct (float32_setitem_in_range _ Hy0) as [? ->].
  destruct (float32_setitem_in_range _ Hx1) as [? ->].
  destruct (float32_setitem_in_range _ Hx2) as [? ->].
  destruct (float32_setitem_in_range _ Hy2) as [? ->].
  destruct (float32_setitem_in_range _ Hy3) as [? ->].
  simpl. eauto.
Qed.

Lemma reflectPoint_returns_witness :
  exists rows,
    reflectPoint (mkRectDomain (mkVector2 0 0) (mkVector2 5 5))
                 (mkVector2 (2 ^ 200) (-7)) = Ok rows /\
    length rows = 4%nat.
Proof.
  apply (reflectPoint_returns (mkRectDomain (mkVector2 0 0) (mkVector2 5 5))
                              (mkVector2 (2 ^ 200) (-7))).
  unfold reflections. repeat constructor; simpl; lia.
Defined.






(** ** Objects: the constructor and copyDomain *)

Lemma load_insert_domain (h : heap) (d c : loc) (o : RectObject) :
  c <> d ->
  load (mkHeap (vectors h) (<[d := o]> (domains h))) c = load h c.
Proof. intros Hne. unfold load. simpl. by rewrite lookup_insert_ne. Qed.

(** X13. The constructor does not copy: the domain it builds reads its
    corner and its size from the very vector objects it was given, so a later
    write into either of them shows through the domain; the domains that
    exist already are left as they are. *)
Theorem init_shares_vectors (h : heap) (m s : loc) (vm vs : Vector2) :
  vectors h !! m = Some vm -> vectors h !! s = Some vs ->
  let d := (RectDomain_init m s h).1 in
  let h1 := (RectDomain_init m s h).2 in
  domains h !! d = None /\
  load h1 d = Some (mkRectDomain vm vs) /\
  (forall v : Vector2, minCorner <$> load (vector_write m v h1) d = Some v) /\
  (forall v : Vector2, size <$> load (vector_write s v h1) d = Some v) /\
  (forall (c : loc) (C : RectDomain), load h c = Some C -> load h1 c = Some C).
Proof.
  intros Hm Hs d h1.
  assert (Hd : domains h !! d = None) by apply not_elem_of_dom, is_fresh.
  split; [done|]. unfold h1, d, RectDomain_init, load, vector_write. simpl.
  fold d. rewrite lookup_insert_eq. simpl.
  split; [by rewrite Hm, Hs|]. split; [|split].
  - intros v. rewrite (lookup_insert_eq (vectors h) m). simpl.
    destruct (decide (m = s)) as [<-|Hne].
    + by rewrite (lookup_insert_eq (vectors h) m).
    + by rewrite (lookup_insert_ne (vectors h) m s), Hs.
  - intros v.
    destruct (decide (s = m)) as [->|Hne].
    + by rewrite (lookup_insert_eq (vectors h) m).
    + rewrite (lookup_insert_ne (vectors h) s m), Hm by done. simpl.
      by rewrite (lookup_insert_eq (vectors h) s).
  - intros c C HC.
    destruct (decide (c = d)) as [->|Hne].
    + rewrite Hd in HC. done.
    + by rewrite lookup_insert_ne.
Qed.

Lemma init_shares_vectors_witness :
  let h := mkHeap {[ 1%positive := mkVector2 0 0; 2%positive := mkVector2 5 5 ]} ∅ in
  let d := (RectDomain_init 1%positive 2%positive h).1 in
  let h1 := (RectDomain_init 1%positive 2%positive h).2 in
  domains h !! d = None /\
  load h1 d = Some (mkRectDomain (mkVector2 0 0) (mkVector2 5 5)) /\
  (forall v : Vector2, minCorner <$> load (vector_write 1%positive v h1) d = Some v) /\
  (forall v : Vector2, size <$> load (vector_write 2%positive v h1) d = Some v) /\
  (forall (c : loc) (C : RectDomain), load h c = Some C -> load h1 c = Some C).
Proof.
  intros h.
  apply (init_shares_vectors h 1%positive 2%positive (mkVector2 0 0) (mkVector2 5 5));
    reflexivity.
Defined.

(** What [a.copyDomain(b)] does to the store as a whole. *)
Lemma copyDomain_effect (h : heap) (a b : loc) (oa : RectObject) (B : RectDomain) :
  domains h !! a = Some oa -> load h b = Some B ->
  exists (h' : heap) (l1 l2 : loc),
    copyDomain a b h = Some h' /\
    load h' a = Some B /\
    l1 <> l2 /\ vectors h !! l1 = None /\ vectors h !! l2 = None /\
    vectors h' = <[l2 := size B]> (<[l1 := minCorner B]> (vectors h)) /\
    domains h' = <[a := mkRectObject l1 l2]> (domains h) /\
    (forall (c : loc) (C : RectDomain), load h c = Some C -> c <> a -> load h' c = Some C).
Proof.
  intros Ha HB. unfold load in HB.
  destruct (domains h !! b) as [ob|] eqn:Hb; [|done]. cbn in HB.
  destruct (vectors h !! minCorner_ref ob) as [m|] eqn:Hm; [|done]. cbn in HB.
  destruct (vectors h !! size_ref ob) as [s|] eqn:Hs; [|done]. cbn in HB.
  injection HB as <-.
  pose proof (copyDomain_run a b h oa ob m s Ha Hb Hm Hs) as Hrun. cbv zeta in Hrun.
  set (l1 := fresh (dom (vectors h))) in *.
  set (l2 := fresh (dom (<[l1 := m]> (vectors h)))) in *.
  assert (Hf1 : vectors h !! l1 = None) by apply not_elem_of_dom, is_fresh.
  assert (Hf2 : <[l1 := m]> (vectors h) !! l2 = None) by apply not_elem_of_dom, is_fresh.
  assert (Hl12 : l1 <> l2).
  { intros E. rewrite <- E, lookup_insert_eq in Hf2. done. }
  assert (Hf2' : vectors h !! l2 = None).
  { by rewrite lookup_insert_ne in Hf2. }
  eexists _, l1, l2. split; [exact Hrun|]. simpl.
  split; [|repeat split; try done].
  - unfold load. simpl. rewrite lookup_insert_eq. simpl.
    rewrite (lookup_insert_ne _ l2 l1), (lookup_insert_eq _ l1) by done. simpl.
    by rewrite (lookup_insert_eq _ l2).
  - intros c C HC Hne. unfold load in *. simpl.
    rewrite lookup_insert_ne by done.
    destruct (domains h !! c) as [oc|]; [|done]. cbn in *.
    destruct (vectors h !! minCorner_ref oc) as [mc|] eqn:Hmc; [|done]. cbn in HC.
    destruct (vectors h !! size_ref oc) as [sc|] eqn:Hsc; [|done]. cbn in HC.
    rewrite (lookup_insert_ne _ l2 (minCorner_ref oc)) by congruence.
    rewrite (lookup_insert_ne _ l1 (minCorner_ref oc)) by congruence.
    rewrite Hmc. cbn.
    rewrite (lookup_insert_ne _ l2 (size_ref oc)) by congruence.
    rewrite (lookup_insert_ne _ l1 (size_ref oc)) by congruence.
    by rewrite Hsc.
Qed.

(** X14. [a.copyDomain(b)] touches nothing but [a]: every other domain
    object keeps its references and its value, no domain object is created,
    no vector object that exists is written, and exactly two new vector
    objects appear, holding the corner and the size of [b]. *)
Theorem copyDomain_frame (h : heap) (a b : loc) (oa : RectObject) (B : RectDomain) :
  domains h !! a = Some oa -> load h b = Some B ->
  exists (h' : heap) (l1 l2 : loc),
    copyDomain a b h = Some h' /\
    (forall c : loc, c <> a -> domains h' !! c = domains h !! c) /\
    (forall (c : loc) (C : RectDomain), load h c = Some C -> c <> a -> load h' c = Some C) /\
    dom (domains h') = dom (domains h) /\
    (forall l : loc, is_Some (vectors h !! l) -> vectors h' !! l = vectors h !! l) /\
    l1 <> l2 /\ (l1 ∉ dom (vectors h)) /\ (l2 ∉ dom (vectors h)) /\
    dom (vectors h') = {[ l1; l2 ]} ∪ dom (vectors h) /\
    vectors h' !! l1 = Some (minCorner B) /\ vectors h' !! l2 = Some (size B).
Proof.
  intros Ha HB.
  destruct (copyDomain_effect h a b oa B Ha HB)
    as (h' & l1 & l2 & Hrun & _ & Hne & Hf1 & Hf2 & HV & HD & Hload).
  exists h', l1, l2. split; [done|]. rewrite HV, HD.
  repeat split; try done.
  - intros c Hc. by rewrite lookup_insert_ne.
  - rewrite dom_insert_L. apply elem_of_dom_2 in Ha. set_solver.
  - intros l [x Hx].
    rewrite !lookup_insert_ne; [done|congruence|congruence].
  - by apply not_elem_of_dom.
  - by apply not_elem_of_dom.
  - rewrite !dom_insert_L. set_solver.
  - by rewrite lookup_insert_ne, lookup_insert_eq.
  - by rewrite lookup_insert_eq.
Qed.

Lemma copyDomain_frame_witness :
  let h := mkHeap {[ 1%positive := mkVector2 0 0; 2%positive := mkVector2 5 5;
                     3%positive := mkVector2 1 1; 4%positive := mkVector2 3 3 ]}
                  {[ 1%positive := mkRectObject 1%positive 2%positive;
                     2%positive := mkRectObject 3%positive 4%positive ]} in
  let a := 1%positive in
  let b := 2%positive in
  let B := mkRectDomain (mkVector2 1 1) (mkVector2 3 3) in
  exists (h' : heap) (l1 l2 : loc),
    copyDomain a b h = Some h' /\
    (forall c : loc, c <> a -> domains h' !! c = domains h !! c) /\
    (forall (c : loc) (C : RectDomain), load h c = Some C -> c <> a -> load h' c = Some C) /\
    dom (domains h') = dom (domains h) /\
    (forall l : loc, is_Some (vectors h !! l) -> vectors h' !! l = vectors h !! l) /\
    l1 <> l2 /\ (l1 ∉ dom (vectors h)) /\ (l2 ∉ dom (vectors h)) /\
    dom (vectors h') = {[ l1; l2 ]} ∪ dom (vectors h) /\
    vectors h' !! l1 = Some (minCorner B) /\ vectors h' !! l2 = Some (size B).
Proof.
  intros h a b B.
  apply (copyDomain_frame h a b (mkRectObject 1%positive 2%positive) B);
    vm_compute; reflexivity.
Defined.

(** X15. Copies can be chained: after [a.copyDomain(b)] and then
    [c.copyDomain(a)], the three domains [a], [b] and [c] all have the value
    that [b] had. *)
Theorem copyDomain_chain (h : heap) (a b c : loc) (oa oc : RectObject) (B : RectDomain) :
  domains h !! a = Some oa -> domains h !! c = Some oc -> load h b = Some B ->
  exists h1 h2 : heap,
    copyDomain a b h = Some h1 /\ copyDomain c a h1 = Some h2 /\
    load h2 a = Some B /\ load h2 b = Some B /\ load h2 c = Some B.
Proof.
  intros Ha Hc HB.
  destruct (copyDomain_effect h a b oa B Ha HB)
    as (h1 & l1 & l2 & Hrun1 & Ha1 & _ & _ & _ & _ & HD1 & Hkeep1).
  assert (Hb1 : load h1 b = Some B).
  { destruct (decide (b = a)) as [->|Hne]; [done|]. by apply Hkeep1. }
  assert (Hc1 : is_Some (domains h1 !! c)).
  { rewrite HD1. destruct (decide (a = c)) as [->|Hne].
    - rewrite lookup_insert_eq. eauto.
    - rewrite lookup_insert_ne by done. eauto. }
  destruct Hc1 as [oc1 Hc1].
  destruct (copyDomain_effect h1 c a oc1 B Hc1 Ha1)
    as (h2 & l3 & l4 & Hrun2 & Hc2 & _ & _ & _ & _ & _ & Hkeep2).
  exists h1, h2. repeat split; try done.
  - destruct (decide (a = c)) as [->|Hne]; [done|]. by apply Hkeep2.
  - destruct (decide (b = c)) as [->|Hne]; [done|]. by apply Hkeep2.
Qed.

Lemma copyDomain_chain_witness :
  let h := mkHeap {[ 1%positive := mkVector2 0 0; 2%positive := mkVector2 5 5;
                     3%positive := mkVector2 1 1; 4%positive := mkVector2 3 3 ]}
                  {[ 1%positive := mkRectObject 1%positive 2%positive;
                     2%positive := mkRectObject 3%positive 4%positive;
                     3%positive := mkRectObject 2%positive 2%positive ]} in
  let B := mkRectDomain (mkVector2 1 1) (mkVector2 3 3) in
  exists h1 h2 : heap,
    copyDomain 1%positive 2%positive h = Some h1 /\
    copyDomain 3%positive 1%positive h1 = Some h2 /\
    load h2 1%positive = Some B /\ load h2 2%positive = Some B /\
    load h2 3%positive = Some B.
Proof.
  intros h B.
  apply (copyDomain_chain h 1%positive 2%positive 3%positive
           (mkRectObject 1%positive 2%positive) (mkRectObject 2%positive 2%positive) B);
    vm_compute; reflexivity.
Defined.

(** ** Moving the domains *)






(** ** intersection on objects *)

Example intersection_obj_ex :
  let h := mkHeap {[ 1%positive := mkVector2 0 0; 2%positive := mkVector2 5 5;
                     3%positive := mkVector2 (-1) 1; 4%positive := mkVector2 2 2 ]}
                  {[ 1%positive := mkRectObject 1%positive 2%positive;
                     2%positive := mkRectObject 3%positive 4%positive ]} in
  ('(res, h') ← intersection_obj 1%positive 2%positive h;
   match res with
   | Ok (Some r) => load h' r
   | _ => None
   end) = Some (mkRectDomain (mkVector2 0 1) (mkVector2 1 2)).
Proof. vm_compute. reflexivity. Qed.

Lemma fresh_vector (V : gmap positive Vector2) : V !! fresh (dom V) = None.
Proof. apply not_elem_of_dom, is_fresh. Qed.

(** X17. On objects, [a.intersection(b)] computes what it computes on
    values, and it builds its result out of new objects only: the domain it
    returns and the two vectors that domain refers to did not exist before,
    and every domain and vector that existed has the value it had. *)
Theorem intersection_obj_fresh (h : heap) (a b : loc) (A B : RectDomain) :
  load h a = Some A -> load h b = Some B ->
  exists (res : result (option loc)) (h' : heap),
    intersection_obj a b h = Some (res, h') /\
    (forall (c : loc) (C : RectDomain), load h c = Some C -> load h' c = Some C) /\
    (forall l : loc, is_Some (vectors h !! l) -> vectors h' !! l = vectors h !! l) /\
    match res with
    | Ok None => intersection A B = Ok None /\ h' = h
    | Ok (Some r) =>
        exists (R : RectDomain) (o : RectObject),
          intersection A B = Ok (Some R) /\ load h' r = Some R /\
          domains h !! r = None /\ domains h' !! r = Some o /\
          vectors h !! minCorner_ref o = None /\
          vectors h !! size_ref o = None /\
          minCorner_ref o <> size_ref o
    | Raise _ => False
    end.
Proof.
  intros HA HB. unfold intersection_obj, intersection. rewrite HA, HB. cbn [mbind option_bind].
  destruct (intersects A B) eqn:Hi; cbn [negb].
  2: { exists (Ok None), h. repeat split; done. }
  set (X := list_sort [vx (minCorner A); vx (minCorner B);
    vx (minCorner A) + vx (size A); vx (minCorner B) + vx (size B)]).
  set (Y := list_sort [vy (minCorner A); vy (minCorner B);
    vy (minCorner A) + vy (size A); vy (minCorner B) + vy (size B)]).
  destruct (sorted_index [vx (minCorner A); vx (minCorner B);
    vx (minCorner A) + vx (size A); vx (minCorner B) + vx (size B)] 1)
    as [x1 Hx1]; [simpl; lia|].
  destruct (sorted_index [vy (minCorner A); vy (minCorner B);
    vy (minCorner A) + vy (size A); vy (minCorner B) + vy (size B)] 1)
    as [y1 Hy1]; [simpl; lia|].
  destruct (sorted_index [vx (minCorner A); vx (minCorner B);
    vx (minCorner A) + vx (size A); vx (minCorner B) + vx (size B)] 2)
    as [x2 Hx2]; [simpl; lia|].
  destruct (sorted_index [vy (minCorner A); vy (minCorner B);
    vy (minCorner A) + vy (size A); vy (minCorner B) + vy (size B)] 2)
    as [y2 Hy2]; [simpl; lia|].
  fold X in Hx1, Hx2. fold Y in Hy1, Hy2. clearbody X Y.
  rewrite Hx1, Hy1, Hx2, Hy2. cbn.
  set (V := vectors h).
  set (l1 := fresh (dom V)).
  set (V1 := <[l1 := mkVector2 x1 y1]> V).
  set (l2 := fresh (dom V1)).
  set (V2 := <[l2 := mkVector2 x2 y2]> V1).
  set (l3 := fresh (dom V2)).
  assert (H1 : V !! l1 = None) by apply fresh_vector.
  assert (H2 : V1 !! l2 = None) by apply fresh_vector.
  assert (H3 : V2 !! l3 = None) by apply fresh_vector.
  assert (H12 : l1 <> l2).
  { intros E. unfold V1 in H2. rewrite <- E, lookup_insert_eq in H2. done. }
  assert (H23 : l2 <> l3).
  { intros E. unfold V2 in H3. rewrite <- E, lookup_insert_eq in H3. done. }
  assert (H13 : l1 <> l3).
  { intros E. unfold V2, V1 in H3.
    rewrite (lookup_insert_ne _ l2 l3), <- E, lookup_insert_eq in H3 by done. done. }
  assert (H2' : V !! l2 = None).
  { unfold V1 in H2. by rewrite (lookup_insert_ne _ l1 l2) in H2. }
  assert (H3' : V !! l3 = None).
  { unfold V2, V1 in H3.
    by rewrite (lookup_insert_ne _ l2 l3), (lookup_insert_ne _ l1 l3) in H3. }
  assert (E2 : V2 !! l2 = Some (mkVector2 x2 y2)) by apply lookup_insert_eq.
  assert (E1 : V2 !! l1 = Some (mkVector2 x1 y1)).
  { unfold V2. rewrite (lookup_insert_ne V1 l2 l1) by done. apply lookup_insert_eq. }
  unfold Vector2_sub_obj. cbn. fold V V1 l1 l2 V2.
  rewrite E2. cbn [mbind option_bind]. rewrite E1. cbn [mbind option_bind vx vy].
  unfold Vector2_init. cbn [vectors domains mbind option_bind]. fold l3.
  set (V3 := <[l3 := mkVector2 (x2 - x1) (y2 - y1)]> V2).
  set (r := fresh (dom (domains h))).
  assert (Hr : domains h !! r = None) by apply not_elem_of_dom, is_fresh.
  assert (Hold : forall l, is_Some (V !! l) -> V3 !! l = V !! l).
  { intros l [x Hx]. unfold V3, V2, V1.
    rewrite !lookup_insert_ne; [done|congruence|congruence|congruence]. }
  assert (E3 : V3 !! l3 = Some (mkVector2 (x2 - x1) (y2 - y1))) by apply lookup_insert_eq.
  assert (E1' : V3 !! l1 = Some (mkVector2 x1 y1)).
  { unfold V3. by rewrite (lookup_insert_ne V2 l3 l1). }
  eexists _, _. split; [reflexivity|]. cbn [vectors domains].
  split; [|split; [exact Hold|]].
  - intros c C HC. unfold load in *. cbn [vectors domains].
    destruct (decide (c = r)) as [->|Hne]; [by rewrite Hr in HC|].
    rewrite (lookup_insert_ne (domains h) r c) by done.
    destruct (domains h !! c) as [oc|]; [|done]. cbn [mbind option_bind] in *.
    fold V in HC.
    destruct (V !! minCorner_ref oc) as [mc|] eqn:Hmc; [|done]. cbn [mbind option_bind] in HC.
    destruct (V !! size_ref oc) as [sc|] eqn:Hsc; [|done]. cbn [mbind option_bind] in HC.
    rewrite (Hold (minCorner_ref oc)) by eauto.
    rewrite Hmc. cbn [mbind option_bind].
    rewrite (Hold (size_ref oc)) by eauto. by rewrite Hsc.
  - eexists _, (mkRectObject l1 l3). split; [reflexivity|].
    split.
    + unfold load. cbn [vectors domains]. rewrite (lookup_insert_eq (domains h) r).
      cbn [mbind option_bind minCorner_ref size_ref]. rewrite E1'.
      cbn [mbind option_bind]. rewrite E3. reflexivity.
    + split; [exact Hr|]. split; [apply lookup_insert_eq|].
      cbn [minCorner_ref size_ref]. done.
Qed.

Lemma intersection_obj_fresh_witness :
  let h := mkHeap {[ 1%positive := mkVector2 0 0; 2%positive := mkVector2 5 5;
                     3%positive := mkVector2 (-1) 1; 4%positive := mkVector2 2 2 ]}
                  {[ 1%positive := mkRectObject 1%positive 2%positive;
                     2%positive := mkRectObject 3%positive 4%positive ]} in
  let a := 1%positive in
  let b := 2%positive in
  let A := mkRectDomain (mkVector2 0 0) (mkVector2 5 5) in
  let B := mkRectDomain (mkVector2 (-1) 1) (mkVector2 2 2) in
  exists (res : result (option loc)) (h' : heap),
    intersection_obj a b h = Some (res, h') /\
    (forall (c : loc) (C : RectDomain), load h c = Some C -> load h' c = Some C) /\
    (forall l : loc, is_Some (vectors h !! l) -> vectors h' !! l = vectors h !! l) /\
    match res with
    | Ok None => intersection A B = Ok None /\ h' = h
    | Ok (Some r) =>
        exists (R : RectDomain) (o : RectObject),
          intersection A B = Ok (Some R) /\ load h' r = Some R /\
          domains h !! r = None /\ domains h' !! r = Some o /\
          vectors h !! minCorner_ref o = None /\
          vectors h !! size_ref o = None /\
          minCorner_ref o <> size_ref o
    | Raise _ => False
    end.
Proof.
  intros h a b A B.
  apply (intersection_obj_fresh h a b A B); vm_compute; reflexivity.
Defined.
